(** * Lambda-expression evaluation server (main.go)

    A shallow embedding of the term model, the substitution routine, the
    head-reduction evaluator, the printer, the stack parser and the
    request dispatch of [main.go], followed by the properties of the
    specification that were checked against them.

    Go's dynamic types matter to this program: its type switches tell
    [variable] from [*variable], so the embedding keeps for every
    [expression] value whether it holds the struct or a pointer to it. *)

From Stdlib Require Import String Ascii List Bool Arith Lia.
Import ListNotations.

Local Open Scope string_scope.
Local Open Scope list_scope.

(** ** Results of running Go code *)

(** The run-time faults the program can raise.  None of them is ever
    recovered: [main.go] has no [recover], so each aborts the process. *)
Inductive fault : Set :=
| InvalidExpression     (* panic("Invalid expression") *)
| NilNotExpression      (* x.(expression) with x the nil interface value *)
| StringNotExpression.  (* x.(expression) with x holding a string *)

(** A computation returns, panics, or has not finished within the number
    of iterations it was given. *)
Inductive outcome (A : Type) : Type :=
| Ok (a : A)
| Panic (f : fault)
| OutOfFuel.

Arguments Ok {A} a.
Arguments Panic {A} f.
Arguments OutOfFuel {A}.

Definition bind {A B : Type} (c : outcome A) (k : A -> outcome B) : outcome B :=
  match c with
  | Ok a => k a
  | Panic f => Panic f
  | OutOfFuel => OutOfFuel
  end.

Declare Scope outcome_scope.
Delimit Scope outcome_scope with outcome.
Notation "x <- c ;; k" := (bind c (fun x => k))
  (at level 61, c at next level, right associativity) : outcome_scope.
Notation "' p <- c ;; k" := (bind c (fun x => let 'p := x in k))
  (at level 61, p pattern, c at next level, right associativity) : outcome_scope.
Local Open Scope outcome_scope.

(** [finished c]: [c] is an answer of the program (a value or a panic),
    not an exhausted budget. *)
Definition finished {A : Type} (c : outcome A) : bool :=
  match c with
  | OutOfFuel => false
  | _ => true
  end.

(** ** Term model *)

(** [type variable struct { name string }] *)
Record variable : Set := mk_variable { name : string }.

Definition variable_eqb (v w : variable) : bool := String.eqb (name v) (name w).

(** What an interface value holds: the struct itself or a pointer to it. *)
Inductive indirection : Set := Val | Ptr.

(** The non-nil values of the interface type [expression]:
    [EVar Val v] is [v], [EVar Ptr v] is [&v]; likewise for
    [abstraction{parameter, body}] and [application{left, right}].
    The program never stores a nil [expression] in a term (every
    conversion of nil to [expression] panics first), and it never
    mutates a term, so pointers are identified with what they point to. *)
Inductive expression : Set :=
| EVar (i : indirection) (v : variable)
| EAbs (i : indirection) (parameter : variable) (body : expression)
| EApp (i : indirection) (left right : expression).

(** The terms of the specification, which has no notion of pointer. *)
Inductive Term : Set :=
| Variable_ (x : string)
| Abstraction (x : string) (body : Term)
| Application (left right : Term).

Fixpoint erase (e : expression) : Term :=
  match e with
  | EVar _ v => Variable_ (name v)
  | EAbs _ p b => Abstraction (name p) (erase b)
  | EApp _ l r => Application (erase l) (erase r)
  end.

(** The three [String] methods; [fmt.Sprintf] with [%s] prints an operand
    that has a [String] method by calling it, pointer or not. *)
Fixpoint expression_String (e : expression) : string :=
  match e with
  | EVar _ v => name v
  | EAbs _ p b => "(!" ++ name p ++ "." ++ expression_String b ++ ")"
  | EApp _ l r => "(" ++ expression_String l ++ " " ++ expression_String r ++ ")"
  end.

(** The printer of the specification (section 4.5), on its own terms. *)
Fixpoint toString (t : Term) : string :=
  match t with
  | Variable_ x => x
  | Abstraction x b => "(!" ++ x ++ "." ++ toString b ++ ")"
  | Application l r => "(" ++ toString l ++ " " ++ toString r ++ ")"
  end.

(** ** Substitution *)

(** [func substitute(expr expression, _variable variable, value expression)].
    The type switch has the cases [variable], [*abstraction] and
    [*application]; every other dynamic type reaches [default] and panics. *)
Fixpoint substitute (expr : expression) (_variable : variable) (value : expression)
  : outcome expression :=
  match expr with
  | EVar Val e =>
      if variable_eqb e _variable then Ok value else Ok (EVar Val e)
  | EAbs Ptr parameter body =>
      if String.eqb (name parameter) (name _variable)
      then Ok (EAbs Ptr parameter body)
      else body' <- substitute body _variable value ;;
           Ok (EAbs Ptr parameter body')
  | EApp Ptr l r =>
      l' <- substitute l _variable value ;;
      r' <- substitute r _variable value ;;
      Ok (EApp Ptr l' r')
  | _ => Panic InvalidExpression
  end.

(** The substitution of the specification (section 4.3). *)
Fixpoint substitute_spec (t : Term) (v : string) (value : Term) : Term :=
  match t with
  | Variable_ x => if String.eqb x v then value else Variable_ x
  | Abstraction x b =>
      if String.eqb x v then Abstraction x b
      else Abstraction x (substitute_spec b v value)
  | Application l r =>
      Application (substitute_spec l v value) (substitute_spec r v value)
  end.

(** ** Evaluation *)

(** The three [Evaluate] methods.  All have value receivers, so a call
    through a pointer copies the struct and the method returns the copy:
    the result of [variable.Evaluate] holds a [variable], never a
    [*variable].  [application.Evaluate] switches on the dynamic type of
    [app.left] with the cases [*abstraction] and [*variable].  [fuel]
    bounds the number of nested [substitute(...).Evaluate()] calls, the
    only recursion. *)
Fixpoint Evaluate (fuel : nat) (e : expression) : outcome expression :=
  match e with
  | EVar _ v => Ok (EVar Val v)
  | EAbs _ p b => Ok (EAbs Val p b)
  | EApp _ l r =>
      match l with
      | EAbs Ptr parameter body =>
          match fuel with
          | O => OutOfFuel
          | S fuel' =>
              e' <- substitute body parameter r ;;
              Evaluate fuel' e'
          end
      | EVar Ptr _ => Ok (EApp Val l r)
      | _ => Panic InvalidExpression
      end
  end.

(** [evaluates e o]: the call [e.Evaluate()] ends with answer [o]. *)
Definition evaluates (e : expression) (o : outcome expression) : Prop :=
  finished o = true /\ exists fuel, Evaluate fuel e = o.

(** ** Tokenizer *)

(** [strings.Fields]: the maximal runs of bytes between white space, where
    white space is what [unicode.IsSpace] accepts.  A Go string is a byte
    sequence read as UTF-8; [space_width s] is the number of bytes of the
    white-space rune that starts [s], or 0 when none does.  The runes are
    U+0009..U+000D, U+0020, U+0085, U+00A0, U+1680, U+2000..U+200A,
    U+2028, U+2029, U+202F, U+205F and U+3000; each of the multi-byte ones
    begins with a UTF-8 lead byte, so scanning byte by byte finds the same
    runes as decoding does. *)
Definition byte_in (lo hi : nat) (c : ascii) : bool :=
  Nat.leb lo (nat_of_ascii c) && Nat.leb (nat_of_ascii c) hi.

Definition space_width (s : string) : nat :=
  match s with
  | String c0 rest =>
      if byte_in 9 13 c0 || byte_in 32 32 c0 then 1
      else
        match rest with
        | String c1 rest' =>
            if byte_in 194 194 c0 && (byte_in 133 133 c1 || byte_in 160 160 c1)
            then 2
            else
              match rest' with
              | String c2 _ =>
                  if (byte_in 225 225 c0 && byte_in 154 154 c1 && byte_in 128 128 c2)
                     || (byte_in 226 226 c0 && byte_in 128 128 c1
                         && (byte_in 128 138 c2 || byte_in 168 169 c2
                             || byte_in 175 175 c2))
                     || (byte_in 226 226 c0 && byte_in 129 129 c1 && byte_in 159 159 c2)
                     || (byte_in 227 227 c0 && byte_in 128 128 c1 && byte_in 128 128 c2)
                  then 3
                  else 0
              | EmptyString => 0
              end
        | EmptyString => 0
        end
  | EmptyString => 0
  end.

Definition flush (field : string) : list string :=
  match field with
  | EmptyString => []
  | _ => [field]
  end.

(** [skip] counts the remaining bytes of a white-space rune being passed;
    [field] is the field read so far. *)
Fixpoint Fields_from (skip : nat) (field : string) (s : string) : list string :=
  match s with
  | EmptyString => flush field
  | String c rest =>
      match skip with
      | S skip' => Fields_from skip' field rest
      | O =>
          match space_width s with
          | O => Fields_from O (field ++ String c EmptyString)%string rest
          | S skip' => (flush field ++ Fields_from skip' EmptyString rest)%list
          end
      end
  end.

Definition Fields (s : string) : list string := Fields_from O EmptyString s.

(** ** The stack of package lane *)

(** What the parser keeps in its stacks, which hold [interface{}] values:
    the nil interface, a token string, or an [expression]. *)
Inductive item : Set :=
| INil
| IString (s : string)
| IExpr (e : expression).

(** [lane.Stack] (github.com/oleiade/lane, version 1) is a deque with the
    top of the stack at its front: [Push] is the deque's [Prepend], [Pop]
    is its [Shift], which returns nil on an empty deque and leaves it
    empty.  A stack is the list of its items, front first. *)
Module lane.
Definition Stack : Set := list item.

Definition NewStack : Stack := [].

Definition Prepend (s : Stack) (x : item) : Stack := x :: s.

Definition Push (s : Stack) (x : item) : Stack := Prepend s x.

Definition Pop (s : Stack) : item * Stack :=
  match s with
  | [] => (INil, [])
  | x :: s' => (x, s')
  end.

Definition Size (s : Stack) : nat := length s.
End lane.

(** ** Parser *)

(** The type assertion [x.(expression)] in its panicking form. *)
Definition assert_expression (x : item) : outcome expression :=
  match x with
  | IExpr e => Ok e
  | INil => Panic NilNotExpression
  | IString _ => Panic StringNotExpression
  end.

(** [top == "("] on an interface value. *)
Definition is_open_paren (x : item) : bool :=
  match x with
  | IString s => String.eqb s "("
  | _ => false
  end.

(** The inner loop of the [")"] case:
    [for { top := stack.Pop(); if top == "(" { break }; args.Prepend(top) }].
    It returns the two stacks at the [break]; [fuel] bounds its iterations. *)
Fixpoint collect (fuel : nat) (stack args : lane.Stack)
  : outcome (lane.Stack * lane.Stack) :=
  match fuel with
  | O => OutOfFuel
  | S fuel' =>
      let '(top, stack) := lane.Pop stack in
      if is_open_paren top then Ok (stack, args)
      else collect fuel' stack (lane.Prepend args top)
  end.

(** What follows the loop in the [")"] case. *)
Definition reduce (stack args : lane.Stack) : outcome lane.Stack :=
  if Nat.eqb (lane.Size args) 1 then
    let '(_, stack) := lane.Pop stack in      (* stack.Pop(), result dropped *)
    let '(arg, _) := lane.Pop args in
    Ok (lane.Push stack arg)
  else
    let '(f, stack) := lane.Pop stack in
    funcExpr <- assert_expression f ;;
    match funcExpr with
    | EAbs Ptr parameter body0 =>
        let '(arg, _) := lane.Pop args in
        value <- assert_expression arg ;;
        body <- substitute body0 parameter value ;;
        Ok (lane.Push stack (IExpr (EAbs Ptr parameter body)))
    | _ =>
        let '(arg, _) := lane.Pop args in
        value <- assert_expression arg ;;
        Ok (lane.Push stack (IExpr (EApp Ptr funcExpr value)))
    end.

(** One iteration of [for _, token := range tokens]. *)
Definition parse_token (fuel : nat) (stack : lane.Stack) (token : string)
  : outcome lane.Stack :=
  if String.eqb token "(" then Ok (lane.Push stack (IString token))
  else if String.eqb token ")" then
    '(stack', args) <- collect fuel stack lane.NewStack ;;
    reduce stack' args
  else Ok (lane.Push stack (IExpr (EVar Ptr (mk_variable token)))).

Fixpoint parse_tokens (fuel : nat) (stack : lane.Stack) (tokens : list string)
  : outcome lane.Stack :=
  match tokens with
  | [] => Ok stack
  | token :: tokens' =>
      stack' <- parse_token fuel stack token ;;
      parse_tokens fuel stack' tokens'
  end.

(** The parser after tokenizing: the token loop from an empty stack, then
    [return stack.Pop().(expression)]. *)
Definition parse (fuel : nat) (tokens : list string) : outcome expression :=
  stack <- parse_tokens fuel lane.NewStack tokens ;;
  assert_expression (fst (lane.Pop stack)).

(** [func parseLambdaExpression(expr string) expression]; [fuel] bounds the
    iterations of each run of the inner loop. *)
Definition parseLambdaExpression (fuel : nat) (expr : string) : outcome expression :=
  parse fuel (Fields expr).

(** [parses_to expr o]: the call [parseLambdaExpression(expr)] ends with
    answer [o]. *)
Definition parses_to (expr : string) (o : outcome expression) : Prop :=
  finished o = true /\ exists fuel, parseLambdaExpression fuel expr = o.

(** [parse_diverges expr]: the call never ends, whatever budget it gets. *)
Definition parse_diverges (expr : string) : Prop :=
  forall fuel, parseLambdaExpression fuel expr = OutOfFuel.

(** ** Request dispatch *)

Section Dispatch.

(** The numbers of decoded JSON; the dispatch never looks inside one. *)
Variable float64 : Set.

(** What [encoding/json] decodes into an [interface{}]. *)
#[local] Unset Elimination Schemes.
Inductive any : Type :=
| JNull
| JBool (b : bool)
| JNumber (x : float64)
| JString (s : string)
| JArray (xs : list any)
| JObject (fields : list (string * any)).
#[local] Set Elimination Schemes.

Record Request : Type := mk_Request
  { Request_ID : any; Method : string; Params : any }.

(** [Response.Result] holds either the request's params or the struct
    with the single field [Expression]. *)
Inductive result : Type :=
| ResultParams (params : any)
| ResultExpression (Expression : string).

Record Response : Type := mk_Response
  { Response_ID : any; Result : result }.

(** What one iteration of the loop of [handleConnection] does with a
    decoded request: it writes a response and goes on, returns (the
    deferred [conn.Close()] runs), panics, or does not finish. *)
Inductive reaction : Type :=
| Respond (response : Response)
| Return
| Abort (f : fault)
| Unfinished.

(** [params[key]] on a decoded object. *)
Fixpoint index (fields : list (string * any)) (key : string) : option any :=
  match fields with
  | [] => None
  | (k, v) :: rest => if String.eqb k key then Some v else index rest key
  end.

(** The body of the loop after a successful [decoder.Decode]; the write
    of the response is taken to succeed. *)
Definition serve (fuel : nat) (request : Request) : reaction :=
  if String.eqb (Method request) "evaluate" then
    match Params request with
    | JObject params =>
        match index params "expression" with
        | Some (JString expression) =>
            match
              express <- parseLambdaExpression fuel expression ;;
              Evaluate fuel express
            with
            | Ok result =>
                Respond (mk_Response (Request_ID request)
                           (ResultExpression (expression_String result)))
            | Panic f => Abort f
            | OutOfFuel => Unfinished
            end
        | _ => Return
        end
    | _ => Return
    end
  else
    Respond (mk_Response (Request_ID request) (ResultParams (Params request))).

End Dispatch.

Arguments JNull {float64}.
Arguments JBool {float64} b.
Arguments JNumber {float64} x.
Arguments JString {float64} s.
Arguments JArray {float64} xs.
Arguments JObject {float64} fields.
Arguments mk_Request {float64}.
Arguments Request_ID {float64}.
Arguments Method {float64}.
Arguments Params {float64}.
Arguments ResultParams {float64}.
Arguments ResultExpression {float64}.
Arguments mk_Response {float64}.
Arguments Response_ID {float64}.
Arguments Result {float64}.
Arguments Respond {float64}.
Arguments Return {float64}.
Arguments Abort {float64}.
Arguments Unfinished {float64}.
Arguments index {float64}.
Arguments serve {float64}.

(** ** Predicates used in the statements *)

(** Every head that is neither [*abstraction] nor [*variable]. *)
Definition unhandled_head (l : expression) : bool :=
  match l with
  | EAbs Ptr _ _ | EVar Ptr _ => false
  | _ => true
  end.

(** No item of the stack is the marker ["("]. *)
Definition markerless (stack : lane.Stack) : bool :=
  forallb (fun x => negb (is_open_paren x)) stack.

(** What a token other than [")"] pushes. *)
Definition shift (token : string) : item :=
  if String.eqb token "(" then IString token
  else IExpr (EVar Ptr (mk_variable token)).

Definition no_close_paren (tokens : list string) : bool :=
  forallb (fun token => negb (String.eqb token ")")) tokens.

Definition x_ : variable := mk_variable "x".

Definition y_ : variable := mk_variable "y".

(** No token is a parenthesis. *)
Definition no_paren (tokens : list string) : bool :=
  forallb (fun token => negb (String.eqb token "(") && negb (String.eqb token ")"))
          tokens.

(** The terms on which [substitute] has a case at every node: variables
    held as structs, abstractions and applications through pointers. *)
Fixpoint substitutable (e : expression) : bool :=
  match e with
  | EVar Val _ => true
  | EAbs Ptr _ b => substitutable b
  | EApp Ptr l r => substitutable l && substitutable r
  | _ => false
  end.

(** What [Evaluate] answers once [substitute] has answered [c]. *)
Definition evaluates_after (c : outcome expression) (o : outcome expression) : Prop :=
  match c with
  | Ok e' => evaluates e' o
  | Panic f => o = Panic f
  | OutOfFuel => False
  end.

(** The terms the grammar reaches: pointers to variables and to
    applications of such terms. *)
Fixpoint parsed (e : expression) : bool :=
  match e with
  | EVar Ptr _ => true
  | EApp Ptr l r => parsed l && parsed r
  | _ => false
  end.

(** Terms built solely from variables and applications. *)
Fixpoint abstraction_free (e : expression) : bool :=
  match e with
  | EVar _ _ => true
  | EAbs _ _ _ => false
  | EApp _ l r => abstraction_free l && abstraction_free r
  end.

Definition term_item (x : item) : bool :=
  match x with
  | IExpr e => parsed e
  | _ => false
  end.

(** The stack invariant: every entry is the marker or a parsed term. *)
Definition parser_item (x : item) : bool := is_open_paren x || term_item x.

Definition parser_stack (stack : lane.Stack) : bool := forallb parser_item stack.

(** The [")"] case reaches its [*abstraction] branch on these stacks. *)
Definition takes_abstraction_branch (stack args : lane.Stack) : bool :=
  negb (Nat.eqb (lane.Size args) 1) &&
  match fst (lane.Pop stack) with
  | IExpr (EAbs Ptr _ _) => true
  | _ => false
  end.

(** The variable at the end of the left spine, through applications and
    abstraction bodies. *)
Fixpoint head_variable (e : expression) : variable :=
  match e with
  | EVar _ v => v
  | EAbs _ _ b => head_variable b
  | EApp _ l _ => head_variable l
  end.

(** Some abstraction of [e] has a parameter named [x]. *)
Fixpoint binds (x : string) (e : expression) : bool :=
  match e with
  | EVar _ _ => false
  | EAbs _ p b => String.eqb (name p) x || binds x b
  | EApp _ l r => binds x l || binds x r
  end.

Definition head_unbound (e : expression) : bool :=
  negb (binds (name (head_variable e)) e).

Definition stuck_application (e : expression) : bool :=
  match e with
  | EApp _ (EVar Ptr _) _ => true
  | _ => false
  end.

(** The length of the left spine. *)
Fixpoint spine (e : expression) : nat :=
  match e with
  | EVar _ _ => 0
  | EAbs _ _ b => S (spine b)
  | EApp _ l _ => S (spine l)
  end.

(** ** The connection loop *)

Section Connection.

Variable float64 : Set.

(** What one call [decoder.Decode(&request)] yields: a request, or an
    error (malformed input, a field of the wrong type, or the end of the
    stream). *)
Inductive decoded : Type :=
| Decoded (request : Request float64)
| DecodeFailed.

(** How a run of [handleConnection] ends: it returns (and the deferred
    [conn.Close()] runs), a panic aborts the process, or it does not end. *)
Inductive ending : Set :=
| Returned
| Aborted (f : fault)
| Hung.

(** [func handleConnection(conn net.Conn)] on the successive results of
    [Decode]; the end of the list is the end of the stream, where [Decode]
    reports EOF.  The result is the responses written, in order, and how
    the run ends.  Every write is taken to succeed. *)
Fixpoint handleConnection (fuel : nat) (input : list decoded)
  : list (Response float64) * ending :=
  match input with
  | [] => ([], Returned)
  | DecodeFailed :: _ => ([], Returned)
  | Decoded request :: input' =>
      match serve fuel request with
      | Respond response =>
          let '(responses, e) := handleConnection fuel input' in
          (response :: responses, e)
      | Return => ([], Returned)
      | Abort f => ([], Aborted f)
      | Unfinished => ([], Hung)
      end
  end.

(** The response of the pass-through branch. *)
Definition echo (request : Request float64) : Response float64 :=
  mk_Response (Request_ID request) (ResultParams (Params request)).

(** The string the ["evaluate"] branch extracts from the params, when the
    two checked type assertions succeed. *)
Definition expression_param (params : any float64) : option string :=
  match params with
  | JObject fields =>
      match index fields "expression" with
      | Some (JString expression) => Some expression
      | _ => None
      end
  | _ => None
  end.

(** The request gets a response. *)
Definition answered (fuel : nat) (request : Request float64) : bool :=
  match serve fuel request with
  | Respond _ => true
  | _ => false
  end.

(** The requests decoded before the first decoding error. *)
Fixpoint decoded_requests (input : list decoded) : list (Request float64) :=
  match input with
  | Decoded request :: input' => request :: decoded_requests input'
  | _ => []
  end.

End Connection.

Arguments Decoded {float64}.
Arguments DecodeFailed {float64}.
Arguments handleConnection {float64}.
Arguments echo {float64}.
Arguments answered {float64}.
Arguments expression_param {float64}.
Arguments decoded_requests {float64}.

(** ** Further predicates *)

(** [substitute] meets no node without a case on its way through [e]: it
    does not enter an abstraction whose parameter has the name of [v]. *)
Fixpoint supported (v : variable) (e : expression) : bool :=
  match e with
  | EVar Val _ => true
  | EAbs Ptr p b => String.eqb (name p) (name v) || supported v b
  | EApp Ptr l r => supported v l && supported v r
  | _ => false
  end.

(** A variable named [x] occurs in [e] outside every abstraction whose
    parameter is named [x]. *)
Fixpoint free_in (x : string) (e : expression) : bool :=
  match e with
  | EVar _ v => String.eqb (name v) x
  | EAbs _ p b => negb (String.eqb (name p) x) && free_in x b
  | EApp _ l r => free_in x l || free_in x r
  end.

(** The name [x] occurs in [e], as a variable or as a parameter. *)
Fixpoint mentions (x : string) (e : expression) : bool :=
  match e with
  | EVar _ v => String.eqb (name v) x
  | EAbs _ p b => String.eqb (name p) x || mentions x b
  | EApp _ l r => mentions x l || mentions x r
  end.

(** The shapes [Evaluate] returns: a variable or an abstraction held as a
    struct, or an application held as a struct whose left child is a
    pointer to a variable. *)
Definition evaluated (e : expression) : bool :=
  match e with
  | EVar Val _ | EAbs Val _ _ | EApp Val (EVar Ptr _) _ => true
  | _ => false
  end.

Definition headed_by_application (e : expression) : bool :=
  match e with
  | EApp _ (EApp _ _ _) _ => true
  | _ => false
  end.

Fixpoint all_bytes (f : ascii -> bool) (s : string) : bool :=
  match s with
  | EmptyString => true
  | String c rest => f c && all_bytes f rest
  end.

(** A byte that is no ASCII white space and does not begin the UTF-8
    encoding of any white-space rune. *)
Definition plain_byte (c : ascii) : bool :=
  negb (byte_in 9 13 c) && negb (byte_in 32 32 c) && negb (byte_in 194 194 c)
  && negb (byte_in 225 225 c) && negb (byte_in 226 226 c)
  && negb (byte_in 227 227 c).

Definition plain_token (t : string) : bool :=
  negb (String.eqb t "") && all_bytes plain_byte t.

Definition ascii_space (c : ascii) : bool := byte_in 9 13 c || byte_in 32 32 c.

(** The tokens with one space between neighbours. *)
Fixpoint join (tokens : list string) : string :=
  match tokens with
  | [] => ""
  | [t] => t
  | t :: tokens' => t ++ " " ++ join tokens'
  end.

(** * Properties *)

(** ** Answers do not depend on the budget *)

Lemma bind_Ok {A B : Type} (c : outcome A) (k : A -> outcome B) (b : B) :
  bind c k = Ok b -> exists a, c = Ok a /\ k a = Ok b.
Proof.
  destruct c as [a| |]; simpl; intros H; try discriminate.
  exists a. split; [reflexivity | exact H].
Qed.

Lemma substitute_finished (expr : expression) (v : variable) (value : expression) :
  finished (substitute expr v value) = true.
Proof.
  induction expr as [[|] x | [|] p b IH | [|] l IHl r IHr]; simpl; try reflexivity.
  - destruct (variable_eqb x v); reflexivity.
  - destruct (String.eqb (name p) (name v)); [reflexivity|].
    destruct (substitute b v value); simpl in *; congruence.
  - destruct (substitute l v value); simpl in *; try congruence.
    destruct (substitute r v value); simpl in *; congruence.
Qed.

(** The equations of [Evaluate], one per case of the dispatch. *)
Lemma Evaluate_variable (fuel : nat) (i : indirection) (v : variable) :
  Evaluate fuel (EVar i v) = Ok (EVar Val v).
Proof. destruct fuel; reflexivity. Qed.

Lemma Evaluate_abstraction (fuel : nat) (i : indirection) (p : variable) (b : expression) :
  Evaluate fuel (EAbs i p b) = Ok (EAbs Val p b).
Proof. destruct fuel; reflexivity. Qed.

Lemma Evaluate_stuck (fuel : nat) (i : indirection) (v : variable) (r : expression) :
  Evaluate fuel (EApp i (EVar Ptr v) r) = Ok (EApp Val (EVar Ptr v) r).
Proof. destruct fuel; reflexivity. Qed.

Lemma Evaluate_redex (fuel : nat) (i : indirection) (p : variable) (b r : expression) :
  Evaluate (S fuel) (EApp i (EAbs Ptr p b) r) =
  (e' <- substitute b p r ;; Evaluate fuel e').
Proof. reflexivity. Qed.

Lemma Evaluate_redex_O (i : indirection) (p : variable) (b r : expression) :
  Evaluate O (EApp i (EAbs Ptr p b) r) = OutOfFuel.
Proof. reflexivity. Qed.

Lemma Evaluate_unhandled (fuel : nat) (i : indirection) (l r : expression) :
  unhandled_head l = true ->
  Evaluate fuel (EApp i l r) = Panic InvalidExpression.
Proof.
  destruct l as [[|] v | [|] p b | j l1 l2]; simpl; intros H;
    try discriminate; destruct fuel; reflexivity.
Qed.

Lemma Evaluate_more_fuel (fuel : nat) :
  forall e, finished (Evaluate fuel e) = true ->
  forall extra, Evaluate (fuel + extra) e = Evaluate fuel e.
Proof.
  induction fuel as [|fuel IH]; intros e H extra;
    destruct e as [i v | i p b | i l r];
    rewrite ?Evaluate_variable, ?Evaluate_abstraction; try reflexivity;
    destruct l as [[|] v | [|] p b | j l1 l2];
    rewrite ?Evaluate_stuck, ?Evaluate_unhandled by reflexivity;
    try reflexivity.
  - rewrite Evaluate_redex_O in H. discriminate.
  - rewrite Nat.add_succ_l, !Evaluate_redex in *.
    destruct (substitute b p r) as [e'| |]; simpl in *; try reflexivity.
    apply IH. exact H.
Qed.

Lemma evaluates_unique (e : expression) (o1 o2 : outcome expression) :
  evaluates e o1 -> evaluates e o2 -> o1 = o2.
Proof.
  intros [F1 [n1 E1]] [F2 [n2 E2]]. subst o1 o2.
  rewrite <- (Evaluate_more_fuel n1 e F1 n2).
  rewrite <- (Evaluate_more_fuel n2 e F2 n1).
  rewrite Nat.add_comm. reflexivity.
Qed.

Lemma collect_more_fuel (fuel : nat) :
  forall stack args, finished (collect fuel stack args) = true ->
  forall extra, collect (fuel + extra) stack args = collect fuel stack args.
Proof.
  induction fuel as [|fuel IH]; intros stack args H extra.
  - discriminate.
  - simpl in *. destruct (lane.Pop stack) as [top stack'].
    destruct (is_open_paren top); [reflexivity|].
    apply IH. exact H.
Qed.

Lemma parse_token_more_fuel (fuel : nat) (stack : lane.Stack) (token : string) :
  finished (parse_token fuel stack token) = true ->
  forall extra, parse_token (fuel + extra) stack token = parse_token fuel stack token.
Proof.
  unfold parse_token. intros H extra.
  destruct (String.eqb token "("); [reflexivity|].
  destruct (String.eqb token ")"); [|reflexivity].
  rewrite collect_more_fuel; [reflexivity|].
  destruct (collect fuel stack lane.NewStack); try reflexivity. discriminate.
Qed.

Lemma parse_tokens_more_fuel (fuel : nat) (tokens : list string) :
  forall stack, finished (parse_tokens fuel stack tokens) = true ->
  forall extra, parse_tokens (fuel + extra) stack tokens = parse_tokens fuel stack tokens.
Proof.
  induction tokens as [|token tokens IH]; intros stack H extra; [reflexivity|].
  simpl in *. rewrite parse_token_more_fuel.
  - destruct (parse_token fuel stack token) as [stack'| |]; simpl in *;
      try reflexivity.
    apply IH. exact H.
  - destruct (parse_token fuel stack token); try reflexivity. discriminate.
Qed.

Lemma parse_more_fuel (fuel : nat) (tokens : list string) :
  finished (parse fuel tokens) = true ->
  forall extra, parse (fuel + extra) tokens = parse fuel tokens.
Proof.
  unfold parse. intros H extra. rewrite parse_tokens_more_fuel; [reflexivity|].
  destruct (parse_tokens fuel lane.NewStack tokens); try reflexivity. discriminate.
Qed.

Lemma parses_to_unique (expr : string) (o1 o2 : outcome expression) :
  parses_to expr o1 -> parses_to expr o2 -> o1 = o2.
Proof.
  unfold parses_to, parseLambdaExpression.
  intros [F1 [n1 E1]] [F2 [n2 E2]]. subst o1 o2.
  rewrite <- (parse_more_fuel n1 _ F1 n2).
  rewrite <- (parse_more_fuel n2 _ F2 n1).
  rewrite Nat.add_comm. reflexivity.
Qed.

(** ** The marker search *)

(** On a stack without marker the search never stops: once the stack is
    empty, [Pop] keeps returning nil, which is not the marker. *)
Lemma collect_markerless (fuel : nat) :
  forall stack args, markerless stack = true -> collect fuel stack args = OutOfFuel.
Proof.
  induction fuel as [|fuel IH]; intros stack args H; [reflexivity|].
  destruct stack as [|x stack]; simpl.
  - apply IH. reflexivity.
  - simpl in H. apply andb_prop in H. destruct H as [Hx Hs].
    apply negb_true_iff in Hx. rewrite Hx. apply IH. exact Hs.
Qed.

(** With the marker under [above], the search stops there and hands over
    the items above it, the deepest first. *)
Lemma collect_marker (above : lane.Stack) :
  forall fuel below args,
    markerless above = true -> length above < fuel ->
    collect fuel (above ++ IString "(" :: below) args = Ok (below, rev above ++ args).
Proof.
  induction above as [|x above IH]; intros fuel below args H Hlen;
    (destruct fuel as [|fuel]; [inversion Hlen|]); simpl.
  - reflexivity.
  - simpl in H. apply andb_prop in H. destruct H as [Hx Hs].
    apply negb_true_iff in Hx. rewrite Hx. unfold lane.Prepend.
    rewrite IH by (simpl in Hlen; first [exact Hs | lia]).
    rewrite <- app_assoc. reflexivity.
Qed.

Lemma parse_tokens_app (fuel : nat) (tokens1 tokens2 : list string) :
  forall stack,
    parse_tokens fuel stack (tokens1 ++ tokens2) =
    (stack' <- parse_tokens fuel stack tokens1 ;; parse_tokens fuel stack' tokens2).
Proof.
  induction tokens1 as [|token tokens1 IH]; intros stack; simpl; [reflexivity|].
  destruct (parse_token fuel stack token) as [stack'| |]; simpl; auto.
Qed.

Lemma parse_tokens_shift (fuel : nat) (tokens : list string) :
  forall stack,
    no_close_paren tokens = true ->
    parse_tokens fuel stack tokens = Ok (rev (map shift tokens) ++ stack).
Proof.
  induction tokens as [|token tokens IH]; intros stack H; simpl; [reflexivity|].
  simpl in H. apply andb_prop in H. destruct H as [Ht Hs].
  apply negb_true_iff in Ht.
  unfold parse_token. rewrite Ht. fold (shift token).
  replace (if String.eqb token "(" then Ok (lane.Push stack (IString token))
           else Ok (lane.Push stack (IExpr (EVar Ptr (mk_variable token)))))
    with (Ok (A := lane.Stack) (shift token :: stack))
    by (unfold shift, lane.Push, lane.Prepend; destruct (String.eqb token "("); reflexivity).
  simpl. rewrite IH by exact Hs. rewrite <- app_assoc. reflexivity.
Qed.

(** ** C1: the group ["( x y )"] *)

Lemma Fields_paren_x_y : Fields "( x y )" = ["("; "x"; "y"; ")"].
Proof. reflexivity. Qed.

(** C1, as stated, fails: no budget makes [parseLambdaExpression] return
    a term for ["( x y )"]. *)
Lemma C1_paren_pair_yields_no_term :
  ~ exists (fuel : nat) (t : expression),
      parseLambdaExpression fuel "( x y )" = Ok t.
Proof.
  intros [fuel [t H]]. unfold parseLambdaExpression in H.
  rewrite Fields_paren_x_y in H.
  destruct fuel as [|[|[|fuel]]]; discriminate H.
Qed.

(** C1 (amended): parsing ["( x y )"] ends in a panic, because the group
    has two elements and nothing precedes its opening parenthesis, so the
    pop for [funcExpr] yields nil and the type assertion fails; the term
    [Application(Variable x, Variable y)] itself is returned unchanged by
    [Evaluate] (as a copy of the struct) and prints as ["(x y)"]. *)
Theorem C1_paren_pair_panics_and_application_is_stuck :
  parses_to "( x y )" (Panic NilNotExpression) /\
  (forall (fuel : nat) (i : indirection),
      Evaluate fuel (EApp i (EVar Ptr x_) (EVar Ptr y_)) =
      Ok (EApp Val (EVar Ptr x_) (EVar Ptr y_))) /\
  erase (EApp Val (EVar Ptr x_) (EVar Ptr y_)) =
    Application (Variable_ "x") (Variable_ "y") /\
  expression_String (EApp Val (EVar Ptr x_) (EVar Ptr y_)) = "(x y)".
Proof.
  repeat split.
  - exists 3. reflexivity.
  - intros fuel i. apply Evaluate_stuck.
Qed.

(** ** C2: parenthesized singletons *)

Lemma Fields_nested_singleton : Fields "( ( x ) )" = ["("; "("; "x"; ")"; ")"].
Proof. reflexivity. Qed.

(** C2 at ["( ( x ) )"]: the string ["( x )"] parses to the single term
    [Variable x], yet the parse of ["( ( x ) )"] never ends.  The
    singleton case pops the stack once more after the search has already
    removed the marker, so the first [")"] also removes the outer marker
    and the search started by the second [")"] finds none. *)
Theorem C2_nested_singleton_diverges :
  parses_to "( x )" (Ok (EVar Ptr x_)) /\ parse_diverges "( ( x ) )".
Proof.
  split.
  - split; [reflexivity|]. exists 2. reflexivity.
  - intros fuel. unfold parseLambdaExpression. rewrite Fields_nested_singleton.
    destruct fuel as [|[|fuel]]; try reflexivity.
    unfold parse. simpl. unfold parse_token. simpl String.eqb. cbv iota.
    rewrite collect_markerless by reflexivity. reflexivity.
Qed.

(** ** C3: malformed input *)

(** C3, as stated, fails: the unterminated group ["( x"] is not refused,
    the parser returns [Variable x] for it. *)
Lemma C3_unterminated_group_returns_term :
  parses_to "( x" (Ok (EVar Ptr x_)).
Proof. split; [reflexivity|]. exists 0. reflexivity. Qed.

(** C3 (amended): the parser has no error result.  On an empty token
    stream the final pop yields nil and the type assertion panics.  On a
    token stream without [")"], where every ["("] is unmatched and any
    number of entries is left on the stack, the parser returns the
    variable named by the last token, and panics when the last token is
    ["("], a string and not an expression. *)
Theorem C3_parser_has_no_error_result (fuel : nat) (tokens : list string) (t : string) :
  no_close_paren tokens = true ->
  String.eqb t ")" = false ->
  (forall expr, Fields expr = [] ->
                parseLambdaExpression fuel expr = Panic NilNotExpression) /\
  parse fuel (tokens ++ [t]) =
    (if String.eqb t "(" then Panic StringNotExpression
     else Ok (EVar Ptr (mk_variable t))).
Proof.
  intros Htokens Ht. split.
  - intros expr H. unfold parseLambdaExpression. rewrite H. reflexivity.
  - unfold parse. rewrite parse_tokens_shift.
    + rewrite map_app, rev_app_distr. simpl. unfold shift.
      destruct (String.eqb t "("); reflexivity.
    + unfold no_close_paren in *. rewrite forallb_app, Htokens. simpl.
      rewrite Ht. reflexivity.
Qed.

Lemma C3_parser_has_no_error_result_witness :
  parseLambdaExpression 0 "" = Panic NilNotExpression /\
  parse 0 (["("] ++ ["x"]) = Ok (EVar Ptr x_).
Proof.
  destruct (C3_parser_has_no_error_result 0 ["("] "x" eq_refl eq_refl) as [H1 H2].
  split; [apply H1; reflexivity | exact H2].
Defined.

Lemma shift_markerless (tokens : list string) :
  no_paren tokens = true -> markerless (rev (map shift tokens)) = true.
Proof.
  unfold markerless. induction tokens as [|token tokens IH]; intros H; [reflexivity|].
  simpl in *. apply andb_prop in H. destruct H as [Ht Hs].
  apply andb_prop in Ht. destruct Ht as [Ht _]. apply negb_true_iff in Ht.
  rewrite forallb_app, IH by exact Hs. simpl. unfold shift. rewrite Ht. reflexivity.
Qed.

Lemma no_paren_no_close (tokens : list string) :
  no_paren tokens = true -> no_close_paren tokens = true.
Proof.
  unfold no_paren, no_close_paren.
  induction tokens as [|token tokens IH]; intros H; [reflexivity|].
  simpl in *. apply andb_prop in H. destruct H as [Ht Hs].
  apply andb_prop in Ht. destruct Ht as [_ Ht]. rewrite Ht, IH by exact Hs.
  reflexivity.
Qed.

(** An unmatched [")"]: when no ["("] precedes it, the search for the
    marker empties the stack and goes on popping nil for ever, whatever
    follows in the input. *)
Theorem unmatched_close_paren_diverges (fuel : nat) (tokens rest : list string) :
  no_paren tokens = true ->
  parse fuel (tokens ++ ")" :: rest) = OutOfFuel.
Proof.
  intros H. unfold parse. rewrite parse_tokens_app.
  rewrite parse_tokens_shift by (apply no_paren_no_close; exact H).
  simpl. unfold parse_token. simpl String.eqb. cbv iota.
  rewrite collect_markerless; [reflexivity|].
  rewrite app_nil_r. apply shift_markerless. exact H.
Qed.

Lemma unmatched_close_paren_diverges_witness :
  parse_diverges "x )".
Proof.
  intros fuel. apply (unmatched_close_paren_diverges fuel ["x"] [] eq_refl).
Defined.

(** ** C4: an application in head position *)

(** C4: [Evaluate] on an application whose left child is an application,
    pointer or struct, panics with "Invalid expression" whatever the
    children are -- also when the left child could be reduced -- and so
    never ends with a term. *)
Theorem C4_application_headed_by_application_panics :
  forall (i j : indirection) (l1 l2 r : expression),
    (forall fuel, Evaluate fuel (EApp i (EApp j l1 l2) r) = Panic InvalidExpression) /\
    (forall o, evaluates (EApp i (EApp j l1 l2) r) o -> o = Panic InvalidExpression).
Proof.
  intros i j l1 l2 r.
  assert (E : forall fuel,
             Evaluate fuel (EApp i (EApp j l1 l2) r) = Panic InvalidExpression).
  { intros fuel. apply Evaluate_unhandled. reflexivity. }
  split; [exact E|].
  intros o [_ [fuel H]]. rewrite E in H. symmetry. exact H.
Qed.

(** ** C5: substitution *)

(** On the terms whose variables are structs and whose abstractions and
    applications are pointers, [substitute] returns, and what it returns
    is the substitution of the specification. *)
Theorem substitute_refines_spec (expr : expression) (v : variable) (value : expression) :
  substitutable expr = true ->
  exists e', substitute expr v value = Ok e' /\
             erase e' = substitute_spec (erase expr) (name v) (erase value).
Proof.
  induction expr as [[|] e | [|] p b IH | [|] l IHl r IHr]; simpl; intros H;
    try discriminate.
  - unfold variable_eqb. destruct (String.eqb (name e) (name v)); eauto.
  - destruct (String.eqb (name p) (name v)); [eauto|].
    destruct (IH H) as [b' [Hb Eb]]. rewrite Hb. simpl.
    eexists. split; [reflexivity|]. simpl. rewrite Eb. reflexivity.
  - apply andb_prop in H. destruct H as [Hl Hr].
    destruct (IHl Hl) as [l' [Hl' El]]. destruct (IHr Hr) as [r' [Hr' Er]].
    rewrite Hl', Hr'. simpl. eexists. split; [reflexivity|].
    simpl. rewrite El, Er. reflexivity.
Qed.

Lemma substitute_refines_spec_witness :
  exists e',
    substitute (EApp Ptr (EVar Val x_) (EAbs Ptr x_ (EVar Val x_))) x_ (EVar Ptr y_)
      = Ok e' /\
    erase e' =
      Application (Variable_ "y") (Abstraction "x" (Variable_ "x")).
Proof.
  apply (substitute_refines_spec
           (EApp Ptr (EVar Val x_) (EAbs Ptr x_ (EVar Val x_))) x_ (EVar Ptr y_)
           eq_refl).
Defined.

(** ** C6: head reduction *)

(** C6: on an application whose left child is a (pointer to an)
    abstraction, [Evaluate] is [Evaluate] of
    [substitute(left.body, left.parameter, right)], one nested call
    deeper; the two calls end alike.  [right] goes into the substitution
    as it stands: a body that does not mention the parameter gives the
    same answer for every [right], and the parameter itself as body gives
    the evaluation of [right]. *)
Theorem C6_redex_evaluates_substituted_body :
  forall (i : indirection) (parameter : variable) (body right : expression),
    (forall fuel,
        Evaluate (S fuel) (EApp i (EAbs Ptr parameter body) right) =
        (e' <- substitute body parameter right ;; Evaluate fuel e')) /\
    (forall o,
        evaluates (EApp i (EAbs Ptr parameter body) right) o <->
        evaluates_after (substitute body parameter right) o) /\
    (forall fuel,
        Evaluate (S fuel) (EApp i (EAbs Ptr x_ (EVar Val y_)) right) =
        Ok (EVar Val y_)) /\
    (forall fuel,
        Evaluate (S fuel) (EApp i (EAbs Ptr parameter (EVar Val parameter)) right) =
        Evaluate fuel right).
Proof.
  intros i parameter body right. split; [|split; [|split]].
  - intros fuel. apply Evaluate_redex.
  - intros o. split.
    + intros [F [fuel H]]. destruct fuel as [|fuel].
      * rewrite Evaluate_redex_O in H. subst o. discriminate.
      * rewrite Evaluate_redex in H.
        destruct (substitute body parameter right) as [e'| |]; simpl in *.
        -- split; [exact F | exists fuel; exact H].
        -- symmetry. exact H.
        -- subst o. discriminate.
    + intros H. destruct (substitute body parameter right) as [e'| |] eqn:E;
        simpl in H.
      * destruct H as [F [fuel H]]. split; [exact F|].
        exists (S fuel). rewrite Evaluate_redex, E. exact H.
      * subst o. split; [reflexivity|]. exists 1.
        rewrite Evaluate_redex, E. reflexivity.
      * contradiction.
  - intros fuel. rewrite Evaluate_redex. simpl. apply Evaluate_variable.
  - intros fuel. rewrite Evaluate_redex. simpl. unfold variable_eqb.
    rewrite String.eqb_refl. reflexivity.
Qed.

(** ** C8: what the parser can build *)

Lemma parsed_abstraction_free (e : expression) :
  parsed e = true -> abstraction_free e = true.
Proof.
  induction e as [[|] v | [|] p b IH | [|] l IHl r IHr]; simpl; intros H;
    try discriminate; try reflexivity.
  apply andb_prop in H. destruct H as [Hl Hr]. rewrite IHl, IHr by assumption.
  reflexivity.
Qed.

Lemma Pop_parser_stack (stack : lane.Stack) :
  parser_stack stack = true -> parser_stack (snd (lane.Pop stack)) = true.
Proof.
  destruct stack as [|x stack]; simpl; intros H; [reflexivity|].
  apply andb_prop in H. apply H.
Qed.

Lemma collect_parser_stack (fuel : nat) :
  forall stack args stack' args',
    parser_stack stack = true -> forallb term_item args = true ->
    collect fuel stack args = Ok (stack', args') ->
    parser_stack stack' = true /\ forallb term_item args' = true.
Proof.
  induction fuel as [|fuel IH]; intros stack args stack' args' Hs Ha H;
    [discriminate|].
  destruct stack as [|x stack]; simpl in H.
  - (* the stack is empty: the search does not stop *)
    rewrite collect_markerless in H by reflexivity. discriminate.
  - simpl in Hs. apply andb_prop in Hs. destruct Hs as [Hx Hs].
    destruct (is_open_paren x) eqn:E.
    + inversion H; subst. split; assumption.
    + apply (IH _ _ _ _ Hs) in H; [exact H|].
      unfold lane.Prepend. simpl. unfold parser_item in Hx. rewrite E in Hx.
      simpl in Hx. rewrite Hx, Ha. reflexivity.
Qed.

Lemma term_item_expression (x : item) :
  term_item x = true -> exists e, x = IExpr e /\ parsed e = true.
Proof.
  destruct x as [|s|e]; simpl; intros H; try discriminate. eauto.
Qed.

Lemma parser_item_expression (x : item) (e : expression) :
  parser_item x = true -> assert_expression x = Ok e -> parsed e = true.
Proof.
  destruct x as [|s|e0]; simpl; intros H E; try discriminate.
  inversion E; subst. exact H.
Qed.

Lemma Pop_parser_item (stack : lane.Stack) (e : expression) :
  parser_stack stack = true ->
  assert_expression (fst (lane.Pop stack)) = Ok e -> parsed e = true.
Proof.
  destruct stack as [|x stack]; simpl; intros H E; [discriminate|].
  apply andb_prop in H. destruct H as [Hx _].
  apply (parser_item_expression x); assumption.
Qed.

Lemma reduce_parser_stack (stack args stack' : lane.Stack) :
  parser_stack stack = true -> forallb term_item args = true ->
  reduce stack args = Ok stack' ->
  parser_stack stack' = true.
Proof.
  intros Hs Ha. unfold reduce.
  pose proof (Pop_parser_stack stack Hs) as Hrest.
  pose proof (Pop_parser_item stack) as Htop.
  destruct (lane.Pop stack) as [f rest]. simpl in Hrest, Htop.
  destruct (Nat.eqb (lane.Size args) 1) eqn:Esize.
  - destruct args as [|arg [|? ?]]; try discriminate. simpl.
    intros H. inversion H; subst. simpl in *.
    apply andb_prop in Ha. destruct Ha as [Ha _].
    unfold lane.Push, lane.Prepend, parser_item. simpl.
    rewrite Ha, orb_true_r, Hrest. reflexivity.
  - intros H. apply bind_Ok in H. destruct H as [funcExpr [Ef H]].
    specialize (Htop funcExpr Hs Ef).
    assert (Hvalue : forall value,
               assert_expression (fst (lane.Pop args)) = Ok value ->
               parsed value = true).
    { intros value E. destruct args as [|arg args']; simpl in E; [discriminate|].
      simpl in Ha. apply andb_prop in Ha. destruct Ha as [Ha _].
      destruct (term_item_expression arg Ha) as [e [-> He]].
      inversion E; subst. exact He. }
    destruct (lane.Pop args) as [arg args']. simpl in Hvalue.
    destruct funcExpr as [[|] v | [|] p b | [|] l r]; simpl in Htop;
      try discriminate;
      apply bind_Ok in H; destruct H as [value [Ev H]];
      inversion H; subst; unfold lane.Push, lane.Prepend; simpl;
      unfold parser_item; simpl;
      rewrite ?Htop, (Hvalue value Ev), Hrest; reflexivity.
Qed.

Lemma parse_token_parser_stack (fuel : nat) (stack stack' : lane.Stack) (token : string) :
  parser_stack stack = true ->
  parse_token fuel stack token = Ok stack' ->
  parser_stack stack' = true.
Proof.
  intros Hs. unfold parse_token.
  destruct (String.eqb token "(") eqn:Eopen.
  - intros H. inversion H; subst. unfold lane.Push, lane.Prepend. simpl.
    unfold parser_item. simpl. rewrite Eopen, Hs. reflexivity.
  - destruct (String.eqb token ")").
    + intros H. apply bind_Ok in H. destruct H as [[stack1 args] [Ec H]].
      destruct (collect_parser_stack _ _ lane.NewStack _ _ Hs eq_refl Ec) as [H1 H2].
      exact (reduce_parser_stack _ _ _ H1 H2 H).
    + intros H. inversion H; subst. unfold lane.Push, lane.Prepend. simpl.
      rewrite Hs. reflexivity.
Qed.

Lemma parse_tokens_parser_stack (fuel : nat) (tokens : list string) :
  forall stack stack',
    parser_stack stack = true ->
    parse_tokens fuel stack tokens = Ok stack' ->
    parser_stack stack' = true.
Proof.
  induction tokens as [|token tokens IH]; intros stack stack' Hs H; simpl in H.
  - inversion H; subst. exact Hs.
  - apply bind_Ok in H. destruct H as [stack1 [E1 H]].
    apply (IH stack1 stack'); [|exact H].
    exact (parse_token_parser_stack _ _ _ _ Hs E1).
Qed.

Lemma parse_parsed (fuel : nat) (tokens : list string) (t : expression) :
  parse fuel tokens = Ok t -> parsed t = true.
Proof.
  unfold parse. intros H. apply bind_Ok in H. destruct H as [stack [Es H]].
  apply (Pop_parser_item stack); [|exact H].
  exact (parse_tokens_parser_stack _ _ lane.NewStack _ eq_refl Es).
Qed.

Lemma parser_stack_abstraction_free (stack : lane.Stack) :
  parser_stack stack = true ->
  forallb (fun x => match x with
                    | IExpr e => abstraction_free e
                    | _ => true
                    end) stack = true.
Proof.
  induction stack as [|x stack IH]; simpl; intros H; [reflexivity|].
  apply andb_prop in H. destruct H as [Hx Hs]. rewrite (IH Hs), andb_true_r.
  destruct x as [|s|e]; try reflexivity.
  apply parsed_abstraction_free. exact Hx.
Qed.

(** C8: in every state the token loop reaches from the empty stack, the
    entries of the stack are markers and terms without abstraction; a
    [")"] met in that state never takes the [*abstraction] branch; and the
    term the parser returns from that state has no abstraction. *)
Theorem C8_parser_builds_no_abstraction
        (fuel : nat) (tokens : list string) (stack : lane.Stack) :
  parse_tokens fuel lane.NewStack tokens = Ok stack ->
  forallb (fun x => match x with
                    | IExpr e => abstraction_free e
                    | _ => true
                    end) stack = true /\
  (forall fuel' stack' args,
      collect fuel' stack lane.NewStack = Ok (stack', args) ->
      takes_abstraction_branch stack' args = false) /\
  (forall t, parse fuel tokens = Ok t -> abstraction_free t = true).
Proof.
  intros H.
  pose proof (parse_tokens_parser_stack _ _ lane.NewStack _ eq_refl H) as Hs.
  split; [|split].
  - apply parser_stack_abstraction_free. exact Hs.
  - intros fuel' stack' args Ec.
    destruct (collect_parser_stack _ _ lane.NewStack _ _ Hs eq_refl Ec) as [H1 _].
    unfold takes_abstraction_branch.
    destruct stack' as [|x stack']; simpl; [apply andb_false_r|].
    simpl in H1. apply andb_prop in H1. destruct H1 as [Hx _].
    destruct x as [|s|[i v | [|] p b | i l r]]; simpl in *;
      try apply andb_false_r.
    discriminate.
  - intros t Ht. apply parsed_abstraction_free. exact (parse_parsed _ _ _ Ht).
Qed.

Lemma C8_parser_builds_no_abstraction_witness :
  abstraction_free (EApp Ptr (EVar Ptr (mk_variable "f")) (EVar Ptr x_)) = true.
Proof.
  apply (C8_parser_builds_no_abstraction 3 ["f"; "("; "x"; "y"; ")"] _ eq_refl).
  reflexivity.
Defined.

(** No parsed term can be substituted into: its variables are pointers. *)
Lemma substitute_parsed_panics (e : expression) (v : variable) (value : expression) :
  parsed e = true -> substitute e v value = Panic InvalidExpression.
Proof.
  induction e as [[|] x | [|] p b IH | [|] l IHl r IHr]; simpl; intros H;
    try discriminate; try reflexivity.
  apply andb_prop in H. destruct H as [Hl _]. rewrite (IHl Hl). reflexivity.
Qed.

(** C5 at a pointer to a variable: the type switch of [substitute] has the
    case [variable] but none for [*variable], so the call panics, for every
    target and value; and since the parser builds every variable as
    [&variable{...}], the call panics on every term the parser returns. *)
Theorem C5_substitute_panics_on_pointer_variable :
  (forall (e v : variable) (value : expression),
      substitute (EVar Ptr e) v value = Panic InvalidExpression) /\
  (forall (fuel : nat) (tokens : list string) (t : expression)
          (v : variable) (value : expression),
      parse fuel tokens = Ok t ->
      substitute t v value = Panic InvalidExpression).
Proof.
  split; [reflexivity|].
  intros fuel tokens t v value H. apply substitute_parsed_panics.
  exact (parse_parsed fuel tokens t H).
Qed.

(** ** C10: evaluation of parsed terms *)

Lemma Evaluate_parsed (t : expression) :
  parsed t = true ->
  (exists v, t = EVar Ptr v /\ forall fuel, Evaluate fuel t = Ok (EVar Val v)) \/
  (exists v r, t = EApp Ptr (EVar Ptr v) r /\ abstraction_free r = true /\
               forall fuel, Evaluate fuel t = Ok (EApp Val (EVar Ptr v) r)) \/
  (exists l1 l2 r, t = EApp Ptr (EApp Ptr l1 l2) r /\
                   forall fuel, Evaluate fuel t = Panic InvalidExpression).
Proof.
  destruct t as [[|] v | [|] p b | [|] l r]; simpl; intros H; try discriminate.
  - left. exists v. split; [reflexivity|]. intros fuel. apply Evaluate_variable.
  - apply andb_prop in H. destruct H as [Hl Hr].
    destruct l as [[|] v | [|] p b | [|] l1 l2]; simpl in Hl; try discriminate.
    + right. left. exists v, r. split; [reflexivity|].
      split; [apply parsed_abstraction_free; exact Hr|].
      intros fuel. apply Evaluate_stuck.
    + right. right. exists l1, l2, r. split; [reflexivity|].
      intros fuel. apply Evaluate_unhandled. reflexivity.
Qed.

(** C10: on a term returned by the parser, [Evaluate] ends without any
    nested call (budget 0 suffices and the answer is the same for every
    budget): it returns the variable, returns the abstraction-free stuck
    application, or panics on an application headed by an application. *)
Theorem C10_parsed_terms_evaluate_in_one_dispatch
        (fuel : nat) (expr : string) (t : expression) :
  parseLambdaExpression fuel expr = Ok t ->
  finished (Evaluate 0 t) = true /\
  (forall n, Evaluate n t = Evaluate 0 t) /\
  ((exists v, t = EVar Ptr v /\ Evaluate 0 t = Ok (EVar Val v)) \/
   (exists v r, t = EApp Ptr (EVar Ptr v) r /\ abstraction_free r = true /\
                Evaluate 0 t = Ok (EApp Val (EVar Ptr v) r)) \/
   (exists l1 l2 r, t = EApp Ptr (EApp Ptr l1 l2) r /\
                    Evaluate 0 t = Panic InvalidExpression)).
Proof.
  intros H. apply parse_parsed in H.
  destruct (Evaluate_parsed t H)
    as [[v [-> E]] | [[v [r [-> [Hr E]]]] | [l1 [l2 [r [-> E]]]]]].
  - split; [rewrite E; reflexivity|]. split; [intros n; rewrite !E; reflexivity|].
    left. exists v. split; [reflexivity | apply E].
  - split; [rewrite E; reflexivity|]. split; [intros n; rewrite !E; reflexivity|].
    right. left. exists v, r. split; [reflexivity|]. split; [exact Hr | apply E].
  - split; [rewrite E; reflexivity|]. split; [intros n; rewrite !E; reflexivity|].
    right. right. exists l1, l2, r. split; [reflexivity | apply E].
Qed.

Lemma C10_parsed_terms_evaluate_in_one_dispatch_witness :
  parseLambdaExpression 3 "f ( x y ) ( a b )" =
    Ok (EApp Ptr (EApp Ptr (EVar Ptr (mk_variable "f")) (EVar Ptr x_))
                 (EVar Ptr (mk_variable "a"))) /\
  finished (Evaluate 0 (EApp Ptr (EApp Ptr (EVar Ptr (mk_variable "f")) (EVar Ptr x_))
                                 (EVar Ptr (mk_variable "a")))) = true.
Proof.
  split; [reflexivity|].
  apply (C10_parsed_terms_evaluate_in_one_dispatch 3 "f ( x y ) ( a b )" _ eq_refl).
Defined.

(** ** C7: stuck terms *)

(** What [Evaluate] returns, it returns again when applied to it. *)
Lemma Evaluate_result_fixed (fuel : nat) :
  forall e v, Evaluate fuel e = Ok v -> forall fuel', Evaluate fuel' v = Ok v.
Proof.
  induction fuel as [|fuel IH]; intros e v H fuel';
    destruct e as [i x | i p b | i l r];
    rewrite ?Evaluate_variable, ?Evaluate_abstraction in H;
    try (inversion H; subst;
         first [apply Evaluate_variable | apply Evaluate_abstraction]);
    destruct l as [[|] x | [|] p b | j l1 l2];
    rewrite ?Evaluate_stuck, ?Evaluate_unhandled in H by reflexivity;
    try discriminate;
    try (inversion H; subst; apply Evaluate_stuck).
  rewrite Evaluate_redex in H. apply bind_Ok in H. destruct H as [e' [_ H]].
  exact (IH e' v H fuel').
Qed.

Lemma Evaluate_idempotent (fuel fuel' : nat) (e : expression) :
  (v <- Evaluate fuel e ;; Evaluate fuel' v) = Evaluate fuel e.
Proof.
  destruct (Evaluate fuel e) as [v| |] eqn:E; simpl; try reflexivity.
  exact (Evaluate_result_fixed fuel e v E fuel').
Qed.

(** A substitution adds no binder of its own. *)
Lemma substitute_binds (x : string) (p : variable) (value : expression) :
  forall b e',
    substitute b p value = Ok e' ->
    binds x b = false -> binds x value = false -> binds x e' = false.
Proof.
  induction b as [[|] e | [|] q b IH | [|] l IHl r IHr]; simpl;
    intros e' H Hb Hvalue; try discriminate.
  - destruct (variable_eqb e p); inversion H; subst; [exact Hvalue | reflexivity].
  - apply orb_false_elim in Hb. destruct Hb as [Hq Hb].
    destruct (String.eqb (name q) (name p)).
    + inversion H; subst. simpl. rewrite Hq, Hb. reflexivity.
    + apply bind_Ok in H. destruct H as [b' [E H]]. inversion H; subst. simpl.
      rewrite Hq, (IH b' E Hb Hvalue). reflexivity.
  - apply orb_false_elim in Hb. destruct Hb as [Hl Hr].
    apply bind_Ok in H. destruct H as [l' [El H]].
    apply bind_Ok in H. destruct H as [r' [Er H]]. inversion H; subst. simpl.
    rewrite (IHl l' El Hl Hvalue), (IHr r' Er Hr Hvalue). reflexivity.
Qed.

(** A substitution for another name than that of the head variable keeps
    the head variable and the length of the spine. *)
Lemma substitute_head (p : variable) (value : expression) :
  forall b e',
    substitute b p value = Ok e' ->
    String.eqb (name (head_variable b)) (name p) = false ->
    head_variable e' = head_variable b /\ spine e' = spine b.
Proof.
  induction b as [[|] e | [|] q b IH | [|] l IHl r IHr]; simpl;
    intros e' H Hhead; try discriminate.
  - unfold variable_eqb in H. rewrite Hhead in H. inversion H; subst.
    split; reflexivity.
  - destruct (String.eqb (name q) (name p)).
    + inversion H; subst. split; reflexivity.
    + apply bind_Ok in H. destruct H as [b' [E H]]. inversion H; subst. simpl.
      destruct (IH b' E Hhead) as [H1 H2]. rewrite H1, H2. split; reflexivity.
  - apply bind_Ok in H. destruct H as [l' [El H]].
    apply bind_Ok in H. destruct H as [r' [_ H]]. inversion H; subst. simpl.
    destruct (IHl l' El Hhead) as [H1 H2]. rewrite H1, H2. split; reflexivity.
Qed.

(** When no abstraction binds the head variable, every reduction step
    shortens the spine, so [Evaluate] ends within [spine e] nested calls. *)
Lemma Evaluate_head_unbound_finishes (fuel : nat) :
  forall e, spine e <= fuel -> head_unbound e = true ->
            finished (Evaluate fuel e) = true.
Proof.
  induction fuel as [|fuel IH]; intros e Hlen Hhead;
    destruct e as [i x | i p b | i l r];
    rewrite ?Evaluate_variable, ?Evaluate_abstraction; try reflexivity;
    destruct l as [[|] x | [|] p b | j l1 l2];
    rewrite ?Evaluate_stuck, ?Evaluate_unhandled by reflexivity;
    try reflexivity.
  - simpl in Hlen. lia.
  - rewrite Evaluate_redex.
    pose proof (substitute_finished b p r) as F.
    destruct (substitute b p r) as [e'| |] eqn:E; simpl in *;
      try reflexivity; try discriminate.
    unfold head_unbound in Hhead. simpl in Hhead.
    apply negb_true_iff in Hhead.
    apply orb_false_elim in Hhead. destruct Hhead as [Hl Hr].
    apply orb_false_elim in Hl. destruct Hl as [Hp Hb].
    rewrite String.eqb_sym in Hp.
    destruct (substitute_head p r b e' E Hp) as [H1 H2].
    apply IH.
    + rewrite H2. lia.
    + unfold head_unbound. rewrite H1. apply negb_true_iff.
      exact (substitute_binds _ p r b e' E Hb Hr).
Qed.

(** C7: let the head variable of [t] be bound by no abstraction of [t], or
    let [t] be an application whose left child is a (pointer to a)
    variable.  Then [Evaluate] ends, within [spine t] nested calls, and
    evaluating its result again changes nothing; an application whose
    left child is a variable is returned as it is, as a copy of the
    struct. *)
Theorem C7_evaluate_idempotent_on_stuck_terms (t : expression) :
  head_unbound t = true \/ stuck_application t = true ->
  finished (Evaluate (spine t) t) = true /\
  (forall fuel fuel', (v <- Evaluate fuel t ;; Evaluate fuel' v) = Evaluate fuel t) /\
  (forall i v r, t = EApp i (EVar Ptr v) r ->
                 forall fuel, Evaluate fuel t = Ok (EApp Val (EVar Ptr v) r) /\
                              erase (EApp Val (EVar Ptr v) r) = erase t).
Proof.
  intros H. split; [|split].
  - destruct H as [H|H].
    + apply Evaluate_head_unbound_finishes; [apply le_n | exact H].
    + destruct t as [i x | i p b | i [[|] x | j p b | j l1 l2] r];
        try discriminate.
      rewrite Evaluate_stuck. reflexivity.
  - intros fuel fuel'. apply Evaluate_idempotent.
  - intros i v r -> fuel. split; [apply Evaluate_stuck | reflexivity].
Qed.

Lemma C7_evaluate_idempotent_on_stuck_terms_witness :
  (v <- Evaluate 0 (EApp Ptr (EVar Ptr x_) (EVar Ptr y_)) ;; Evaluate 0 v) =
  Evaluate 0 (EApp Ptr (EVar Ptr x_) (EVar Ptr y_)).
Proof.
  apply (C7_evaluate_idempotent_on_stuck_terms
           (EApp Ptr (EVar Ptr x_) (EVar Ptr y_)) (or_introl eq_refl)).
Defined.

(** ** C9: methods other than "evaluate" *)

(** C9: a request whose method is not ["evaluate"] is answered with its
    own id and, as result, its own params. *)
Theorem C9_other_methods_echo_params
        (float64 : Set) (fuel : nat) (request : Request float64) :
  String.eqb (Method request) "evaluate" = false ->
  serve fuel request =
  Respond (mk_Response (Request_ID request) (ResultParams (Params request))).
Proof.
  intros H. unfold serve. rewrite H. reflexivity.
Qed.

Lemma C9_other_methods_echo_params_witness :
  serve 0 (mk_Request (JNumber 1) "ping" (JObject [("a", JNumber 1)])) =
  Respond (mk_Response (JNumber 1) (ResultParams (JObject [("a", JNumber 1)]))).
Proof.
  apply (C9_other_methods_echo_params nat 0
           (mk_Request (JNumber 1) "ping" (JObject [("a", JNumber 1)])) eq_refl).
Defined.

(** ** The printer and the argument of a group *)

(** The [String] methods print the term an expression stands for as the
    printer of the specification does. *)
Theorem expression_String_erase (e : expression) :
  expression_String e = toString (erase e).
Proof.
  induction e as [i v | i p b IH | i l IHl r IHr]; simpl;
    rewrite ?IH, ?IHl, ?IHr; reflexivity.
Qed.

(** A group of two or more identifiers after an identifier [f] parses to
    the application of [f] to the first element of the group:
    [args.Pop()] takes the front of [args], where the search put the
    element it found last, the one nearest to the opening parenthesis. *)
Theorem first_element_of_group_is_applied
        (fuel : nat) (f a b : string) (rest : list string) :
  no_paren (f :: a :: b :: rest) = true ->
  length rest + 2 < fuel ->
  parse fuel (f :: "(" :: a :: b :: rest ++ [")"]) =
  Ok (EApp Ptr (EVar Ptr (mk_variable f)) (EVar Ptr (mk_variable a))).
Proof.
  intros H Hlen.
  pose proof H as H'. simpl in H'.
  apply andb_prop in H'. destruct H' as [Hf H'].
  apply andb_prop in Hf. destruct Hf as [Hf _]. apply negb_true_iff in Hf.
  pose proof H' as Hgroup.
  apply andb_prop in H'. destruct H' as [Ha _].
  apply andb_prop in Ha. destruct Ha as [Ha _]. apply negb_true_iff in Ha.
  change (f :: "(" :: a :: b :: rest ++ [")"])
    with ((f :: "(" :: a :: b :: rest) ++ [")"]).
  unfold parse. rewrite parse_tokens_app, parse_tokens_shift.
  - assert (E : rev (map shift (f :: "(" :: a :: b :: rest)) ++ lane.NewStack =
                rev (map shift (a :: b :: rest))
                  ++ IString "(" :: [IExpr (EVar Ptr (mk_variable f))]).
    { unfold lane.NewStack. rewrite app_nil_r. simpl. unfold shift at 4 5.
      rewrite Hf. simpl. rewrite <- !app_assoc. reflexivity. }
    rewrite E. simpl bind. unfold parse_token. simpl String.eqb. cbv iota.
    rewrite collect_marker.
    + rewrite !rev_app_distr, rev_involutive. simpl. unfold shift at 1.
      rewrite Ha. reflexivity.
    + apply (shift_markerless (a :: b :: rest)). exact Hgroup.
    + change (length (rev (map shift (a :: b :: rest))) < fuel).
      rewrite length_rev, length_map. simpl. lia.
  - apply no_paren_no_close in H. simpl in *. exact H.
Qed.

Lemma first_element_of_group_is_applied_witness :
  parseLambdaExpression 3 "x ( y z )" = Ok (EApp Ptr (EVar Ptr x_) (EVar Ptr y_)).
Proof.
  apply (first_element_of_group_is_applied 3 "x" "y" "z" [] eq_refl).
  simpl. lia.
Defined.

(** ** More on the parser *)



(** The marker search stops exactly on the stacks that hold a marker, and
    then within one iteration per entry. *)
Lemma collect_finished_marker (fuel : nat) (stack args : lane.Stack) :
  finished (collect fuel stack args) = true -> markerless stack = false.
Proof.
  intros H. destruct (markerless stack) eqn:E; [|reflexivity].
  rewrite (collect_markerless fuel stack args E) in H. discriminate.
Qed.

Lemma collect_enough (stack : lane.Stack) :
  forall fuel args,
    markerless stack = false -> length stack < fuel ->
    finished (collect fuel stack args) = true.
Proof.
  induction stack as [|x stack IH]; intros fuel args H Hlen; [discriminate|].
  destruct fuel as [|fuel]; [inversion Hlen|]. simpl in *.
  destruct (is_open_paren x); [reflexivity|].
  apply IH; [exact H | lia].
Qed.

Lemma collect_budget (fuel budget : nat) (stack args : lane.Stack) :
  finished (collect fuel stack args) = true -> length stack < budget ->
  collect budget stack args = collect fuel stack args.
Proof.
  intros H Hlen.
  pose proof (collect_enough stack budget args
                (collect_finished_marker _ _ _ H) Hlen) as Hb.
  rewrite <- (collect_more_fuel fuel stack args H budget).
  rewrite <- (collect_more_fuel budget stack args Hb fuel).
  rewrite Nat.add_comm. reflexivity.
Qed.

Lemma collect_length (fuel : nat) :
  forall stack args stack' args',
    collect fuel stack args = Ok (stack', args') -> length stack' < length stack.
Proof.
  induction fuel as [|fuel IH]; intros stack args stack' args' H; [discriminate|].
  destruct stack as [|x stack]; simpl in H.
  - rewrite collect_markerless in H by reflexivity. discriminate.
  - destruct (is_open_paren x).
    + inversion H; subst. simpl. lia.
    + apply IH in H. simpl. lia.
Qed.

Lemma reduce_length (stack args stack' : lane.Stack) :
  reduce stack args = Ok stack' -> length stack' <= S (length stack).
Proof.
  unfold reduce. destruct (Nat.eqb (lane.Size args) 1).
  - destruct stack as [|x stack]; simpl; destruct (lane.Pop args);
      intros H; inversion H; subst; simpl; lia.
  - destruct stack as [|x stack]; simpl; [discriminate|].
    destruct (assert_expression x) as [funcExpr| |]; simpl; try discriminate.
    destruct (lane.Pop args) as [arg args'].
    destruct funcExpr as [i v | [|] p b | i l r];
      (destruct (assert_expression arg) as [value| |]; simpl; try discriminate);
      try (intros H; inversion H; subst; simpl; lia).
    destruct (substitute b p value); simpl; try discriminate.
    intros H; inversion H; subst; simpl; lia.
Qed.

Lemma parse_token_length (fuel : nat) (stack stack' : lane.Stack) (token : string) :
  parse_token fuel stack token = Ok stack' -> length stack' <= S (length stack).
Proof.
  unfold parse_token. destruct (String.eqb token "(").
  - intros H. inversion H; subst. simpl. lia.
  - destruct (String.eqb token ")").
    + intros H. apply bind_Ok in H. destruct H as [[stack1 args] [Ec H]].
      apply collect_length in Ec. apply reduce_length in H. lia.
    + intros H. inversion H; subst. simpl. lia.
Qed.

Lemma parse_token_budget (fuel budget : nat) (stack : lane.Stack) (token : string) :
  finished (parse_token fuel stack token) = true -> length stack < budget ->
  parse_token budget stack token = parse_token fuel stack token.
Proof.
  unfold parse_token. intros H Hlen.
  destruct (String.eqb token "("); [reflexivity|].
  destruct (String.eqb token ")"); [|reflexivity].
  rewrite (collect_budget fuel budget); [reflexivity| |exact Hlen].
  destruct (collect fuel stack lane.NewStack); try reflexivity. discriminate.
Qed.

Lemma parse_tokens_budget (fuel budget : nat) (tokens : list string) :
  forall stack,
    finished (parse_tokens fuel stack tokens) = true ->
    length stack + length tokens < budget ->
    parse_tokens budget stack tokens = parse_tokens fuel stack tokens.
Proof.
  induction tokens as [|token tokens IH]; intros stack H Hlen; [reflexivity|].
  simpl in *.
  rewrite (parse_token_budget fuel budget).
  - destruct (parse_token fuel stack token) as [stack'| |] eqn:E; simpl in *;
      try reflexivity.
    apply IH; [exact H|]. apply parse_token_length in E. lia.
  - destruct (parse_token fuel stack token); try reflexivity. discriminate.
  - lia.
Qed.

(** Whether the parser ends on a token list is settled by a run in which
    every marker search may take one more iteration than there are
    tokens: a parse that ends at all ends there with the same answer, and
    a parse that does not end there never ends. *)
Theorem parse_ends_within_token_count (tokens : list string) :
  (forall fuel, finished (parse fuel tokens) = true ->
                parse (S (length tokens)) tokens = parse fuel tokens) /\
  (finished (parse (S (length tokens)) tokens) = false ->
   forall fuel, parse fuel tokens = OutOfFuel).
Proof.
  assert (B : forall n, finished (parse n tokens) = true ->
                        parse (S (length tokens)) tokens = parse n tokens).
  { intros n H. unfold parse in *.
    rewrite (parse_tokens_budget n (S (length tokens))); [reflexivity| |simpl; lia].
    destruct (parse_tokens n lane.NewStack tokens); try reflexivity. discriminate. }
  split; [exact B|].
  intros Hnot fuel. destruct (parse fuel tokens) as [t|f|] eqn:E;
    try reflexivity;
    (assert (F : finished (parse fuel tokens) = true) by (rewrite E; reflexivity));
    rewrite (B fuel F), E in Hnot; discriminate.
Qed.

Lemma parse_ends_within_token_count_witness :
  parse 6 ["f"; "("; "x"; "y"; ")"] = parse 9 ["f"; "("; "x"; "y"; ")"] /\
  (forall fuel, parse fuel ["("; "("; "x"; ")"; ")"] = OutOfFuel).
Proof.
  split.
  - apply (proj1 (parse_ends_within_token_count ["f"; "("; "x"; "y"; ")"]) 9).
    reflexivity.
  - apply (proj2 (parse_ends_within_token_count ["("; "("; "x"; ")"; ")"])).
    reflexivity.
Defined.

(** ** The tokenizer *)

Lemma string_app_assoc (a b c : string) : ((a ++ b) ++ c = a ++ (b ++ c))%string.
Proof. induction a as [|x a IH]; simpl; [reflexivity | rewrite IH; reflexivity]. Qed.

Lemma string_app_nil_r (a : string) : (a ++ "" = a)%string.
Proof. induction a as [|x a IH]; simpl; [reflexivity | rewrite IH; reflexivity]. Qed.

Lemma space_width_plain (c : ascii) (rest : string) :
  plain_byte c = true -> space_width (String c rest) = 0.
Proof.
  unfold plain_byte. intros H.
  repeat (apply andb_prop in H; destruct H as [H ?]).
  repeat match goal with
         | E : negb _ = true |- _ => apply negb_true_iff in E
         end.
  simpl. rewrite H, H0, H1, H2, H3, H4. simpl.
  destruct rest as [|c1 [|c2 rest]]; reflexivity.
Qed.

Lemma space_width_ascii_space (c : ascii) (rest : string) :
  ascii_space c = true -> space_width (String c rest) = 1.
Proof. unfold ascii_space. intros H. simpl. rewrite H. reflexivity. Qed.

Lemma Fields_from_plain (t : string) :
  forall field rest,
    all_bytes plain_byte t = true ->
    Fields_from 0 field (t ++ rest) = Fields_from 0 (field ++ t) rest.
Proof.
  induction t as [|c t IH]; intros field rest H; simpl append.
  - rewrite string_app_nil_r. reflexivity.
  - simpl in H. apply andb_prop in H. destruct H as [Hc Ht].
    change (Fields_from 0 field (String c (t ++ rest)))
      with (match space_width (String c (t ++ rest)) with
            | O => Fields_from O (field ++ String c EmptyString) (t ++ rest)
            | S skip' => (flush field ++ Fields_from skip' EmptyString (t ++ rest))%list
            end).
    rewrite (space_width_plain c _ Hc), (IH _ _ Ht), string_app_assoc.
    reflexivity.
Qed.

Lemma Fields_from_join (tokens : list string) :
  forallb plain_token tokens = true ->
  Fields_from 0 "" (join tokens) = tokens.
Proof.
  induction tokens as [|t tokens IH]; intros H; [reflexivity|].
  simpl in H. apply andb_prop in H. destruct H as [Ht Htokens].
  unfold plain_token in Ht. apply andb_prop in Ht. destruct Ht as [Hne Hplain].
  apply negb_true_iff, String.eqb_neq in Hne.
  assert (F : flush t = [t]) by (destruct t; [contradiction | reflexivity]).
  destruct tokens as [|t' tokens].
  - simpl join. rewrite <- (string_app_nil_r t) at 1.
    rewrite (Fields_from_plain t "" "" Hplain). simpl. exact F.
  - change (join (t :: t' :: tokens)) with (t ++ " " ++ join (t' :: tokens))%string.
    rewrite (Fields_from_plain t "" _ Hplain). simpl append at 1.
    change (Fields_from 0 t (" " ++ join (t' :: tokens))%string)
      with (flush t ++ Fields_from 0 "" (join (t' :: tokens)))%list.
    rewrite F, (IH Htokens). reflexivity.
Qed.

(** Tokens that are not empty and contain neither white space nor a byte
    that could begin a white-space rune, written with one space between
    them, are read back as they are; so the parser runs on exactly these
    tokens. *)
Theorem tokens_of_joined_input (tokens : list string) :
  forallb plain_token tokens = true ->
  Fields (join tokens) = tokens /\
  forall fuel, parseLambdaExpression fuel (join tokens) = parse fuel tokens.
Proof.
  intros H. pose proof (Fields_from_join tokens H) as E. split; [exact E|].
  intros fuel. unfold parseLambdaExpression, Fields. rewrite E. reflexivity.
Qed.

Lemma tokens_of_joined_input_witness :
  Fields "f ( x y )" = ["f"; "("; "x"; "y"; ")"].
Proof.
  apply (tokens_of_joined_input ["f"; "("; "x"; "y"; ")"] eq_refl).
Defined.

Lemma Fields_blank (s : string) :
  all_bytes ascii_space s = true -> Fields s = [].
Proof.
  unfold Fields. induction s as [|c s IH]; intros H; [reflexivity|].
  simpl in H. apply andb_prop in H. destruct H as [Hc Hs].
  change (Fields_from 0 "" (String c s))
    with (match space_width (String c s) with
          | O => Fields_from O ("" ++ String c EmptyString) s
          | S skip' => (flush "" ++ Fields_from skip' EmptyString s)%list
          end).
  rewrite (space_width_ascii_space c s Hc). simpl. exact (IH Hs).
Qed.

(** ** More on substitution *)

(** [substitute] returns exactly when every node it reaches has a case in
    its type switch; otherwise it panics with "Invalid expression".  The
    value substituted plays no part in that. *)
Theorem substitute_returns_iff_supported
        (expr : expression) (v : variable) (value : expression) :
  if supported v expr
  then exists e', substitute expr v value = Ok e'
  else substitute expr v value = Panic InvalidExpression.
Proof.
  induction expr as [[|] e | [|] p b IH | [|] l IHl r IHr]; simpl;
    try reflexivity.
  - destruct (variable_eqb e v); eauto.
  - destruct (String.eqb (name p) (name v)); simpl; [eauto|].
    destruct (supported v b).
    + destruct IH as [b' ->]. simpl. eauto.
    + rewrite IH. reflexivity.
  - destruct (supported v l); simpl.
    + destruct IHl as [l' ->]. simpl. destruct (supported v r).
      * destruct IHr as [r' ->]. simpl. eauto.
      * rewrite IHr. reflexivity.
    + rewrite IHl. reflexivity.
Qed.

(** Substituting for a variable that does not occur free returns the
    expression itself. *)
Theorem substitute_absent_variable
        (expr : expression) (v : variable) (value : expression) :
  supported v expr = true ->
  free_in (name v) expr = false ->
  substitute expr v value = Ok expr.
Proof.
  induction expr as [[|] e | [|] p b IH | [|] l IHl r IHr]; simpl;
    intros Hs Hf; try discriminate.
  - unfold variable_eqb. rewrite Hf. reflexivity.
  - destruct (String.eqb (name p) (name v)); [reflexivity|].
    simpl in *. rewrite (IH Hs Hf). reflexivity.
  - apply andb_prop in Hs. destruct Hs as [Hl Hr].
    apply orb_false_elim in Hf. destruct Hf as [Fl Fr].
    rewrite (IHl Hl Fl), (IHr Hr Fr). reflexivity.
Qed.

Lemma substitute_absent_variable_witness :
  substitute (EAbs Ptr x_ (EApp Ptr (EVar Val x_) (EVar Val y_)))
             (mk_variable "z") (EVar Ptr x_)
  = Ok (EAbs Ptr x_ (EApp Ptr (EVar Val x_) (EVar Val y_))).
Proof.
  apply (substitute_absent_variable
           (EAbs Ptr x_ (EApp Ptr (EVar Val x_) (EVar Val y_)))
           (mk_variable "z") (EVar Ptr x_) eq_refl eq_refl).
Defined.

Lemma substitute_mentions (x : string) (p : variable) (value : expression) :
  forall b e',
    substitute b p value = Ok e' ->
    mentions x b = false -> mentions x value = false -> mentions x e' = false.
Proof.
  induction b as [[|] e | [|] q b IH | [|] l IHl r IHr]; simpl;
    intros e' H Hb Hvalue; try discriminate.
  - destruct (variable_eqb e p); inversion H; subst; [exact Hvalue | exact Hb].
  - apply orb_false_elim in Hb. destruct Hb as [Hq Hb].
    destruct (String.eqb (name q) (name p)).
    + inversion H; subst. simpl. rewrite Hq, Hb. reflexivity.
    + apply bind_Ok in H. destruct H as [b' [E H]]. inversion H; subst. simpl.
      rewrite Hq, (IH b' E Hb Hvalue). reflexivity.
  - apply orb_false_elim in Hb. destruct Hb as [Hl Hr].
    apply bind_Ok in H. destruct H as [l' [El H]].
    apply bind_Ok in H. destruct H as [r' [Er H]]. inversion H; subst. simpl.
    rewrite (IHl l' El Hl Hvalue), (IHr r' Er Hr Hvalue). reflexivity.
Qed.

(** ** More on evaluation *)

(** [Evaluate], through all the substitutions it makes, makes up no
    name: a name that occurs in the term it returns, as a variable or as
    a parameter, occurs in the term it was given. *)
Theorem evaluation_invents_no_name (x : string) (fuel : nat) :
  forall e v,
    Evaluate fuel e = Ok v -> mentions x e = false -> mentions x v = false.
Proof.
  induction fuel as [|fuel IH]; intros e v H Hx;
    destruct e as [i y | i p b | i l r];
    rewrite ?Evaluate_variable, ?Evaluate_abstraction in H;
    try (inversion H; subst; exact Hx);
    destruct l as [[|] y | [|] p b | j l1 l2];
    rewrite ?Evaluate_stuck, ?Evaluate_unhandled in H by reflexivity;
    try discriminate;
    try (inversion H; subst; exact Hx).
  rewrite Evaluate_redex in H. apply bind_Ok in H. destruct H as [e' [E H]].
  simpl in Hx. apply orb_false_elim in Hx. destruct Hx as [Hl Hr].
  apply orb_false_elim in Hl. destruct Hl as [_ Hb].
  apply (IH e' v H). exact (substitute_mentions x p r b e' E Hb Hr).
Qed.

Lemma evaluation_invents_no_name_witness :
  mentions "z" (EVar Val y_) = false.
Proof.
  apply (evaluation_invents_no_name "z" 1
           (EApp Ptr (EAbs Ptr x_ (EVar Val x_)) (EVar Val y_)) (EVar Val y_)
           eq_refl eq_refl).
Defined.

(** What [Evaluate] returns is held as a struct, never through a pointer,
    and is a variable, an abstraction, or an application whose left child
    is a pointer to a variable. *)
Theorem Evaluate_returns_evaluated_struct (fuel : nat) :
  forall e v, Evaluate fuel e = Ok v -> evaluated v = true.
Proof.
  induction fuel as [|fuel IH]; intros e v H;
    destruct e as [i y | i p b | i l r];
    rewrite ?Evaluate_variable, ?Evaluate_abstraction in H;
    try (inversion H; subst; reflexivity);
    destruct l as [[|] y | [|] p b | j l1 l2];
    rewrite ?Evaluate_stuck, ?Evaluate_unhandled in H by reflexivity;
    try discriminate;
    try (inversion H; subst; reflexivity).
  rewrite Evaluate_redex in H. apply bind_Ok in H. destruct H as [e' [_ H]].
  exact (IH e' v H).
Qed.

Lemma Evaluate_returns_evaluated_struct_witness :
  evaluated (EAbs Val y_ (EVar Val y_)) = true.
Proof.
  apply (Evaluate_returns_evaluated_struct 1
           (EApp Ptr (EAbs Ptr x_ (EVar Val x_)) (EAbs Ptr y_ (EVar Val y_)))
           (EAbs Val y_ (EVar Val y_)) eq_refl).
Defined.

(** [Evaluate] has no bound on its steps: an application of an
    abstraction whose substituted body is that application again is
    evaluated for ever. *)
Theorem Evaluate_self_reproducing_redex_diverges
        (p : variable) (b r : expression) :
  substitute b p r = Ok (EApp Ptr (EAbs Ptr p b) r) ->
  forall (fuel : nat) (i : indirection),
    Evaluate fuel (EApp i (EAbs Ptr p b) r) = OutOfFuel.
Proof.
  intros H fuel. induction fuel as [|fuel IH]; intros i; [reflexivity|].
  rewrite Evaluate_redex, H. simpl bind. apply IH.
Qed.

Lemma Evaluate_self_reproducing_redex_diverges_witness :
  Evaluate 100
    (EApp Ptr (EAbs Ptr x_ (EApp Ptr (EVar Val x_) (EVar Val x_)))
              (EAbs Ptr x_ (EApp Ptr (EVar Val x_) (EVar Val x_)))) = OutOfFuel.
Proof.
  apply (Evaluate_self_reproducing_redex_diverges
           x_ (EApp Ptr (EVar Val x_) (EVar Val x_))
           (EAbs Ptr x_ (EApp Ptr (EVar Val x_) (EVar Val x_))) eq_refl).
Defined.

(** ** The "evaluate" method and the connection loop *)

Lemma expression_param_Some (float64 : Set) (params : any float64) (expression : string) :
  expression_param params = Some expression ->
  exists fields, params = JObject fields /\
                 index fields "expression" = Some (JString expression).
Proof.
  destruct params as [| | | | |fields]; simpl; try discriminate.
  destruct (index fields "expression") as [[| | |s| |]|] eqn:E; try discriminate.
  intros H. inversion H; subst. exists fields. split; [reflexivity | exact E].
Qed.

(** The answer to an ["evaluate"] request whose params hold a string under
    ["expression"] is decided by the parser alone: when the parser panics
    the handler panics; when the parser returns a term headed by an
    application the evaluation panics; in every other case the response
    carries the request's id and the printed form of the parsed term,
    which evaluation leaves as it is. *)
Theorem evaluate_request_prints_parsed_term
        (float64 : Set) (fuel : nat) (request : Request float64)
        (expression : string) :
  String.eqb (Method request) "evaluate" = true ->
  expression_param (Params request) = Some expression ->
  serve fuel request =
  match parseLambdaExpression fuel expression with
  | Ok t =>
      if headed_by_application t then Abort InvalidExpression
      else Respond (mk_Response (Request_ID request)
                      (ResultExpression (expression_String t)))
  | Panic f => Abort f
  | OutOfFuel => Unfinished
  end.
Proof.
  intros Hm Hp. apply expression_param_Some in Hp.
  destruct Hp as [fields [Hparams Hindex]].
  unfold serve. rewrite Hm, Hparams, Hindex.
  destruct (parseLambdaExpression fuel expression) as [t|f|] eqn:E; simpl;
    try reflexivity.
  apply parse_parsed in E.
  destruct (Evaluate_parsed t E)
    as [[v [-> Ev]] | [[v [r [-> [_ Ev]]]] | [l1 [l2 [r [-> Ev]]]]]];
    rewrite Ev; reflexivity.
Qed.

Lemma evaluate_request_prints_parsed_term_witness :
  serve 3 (mk_Request (JNumber 7) "evaluate"
             (JObject [("expression", JString "f ( x y )")])) =
  Respond (mk_Response (JNumber 7) (ResultExpression "(f x)")).
Proof.
  apply (evaluate_request_prints_parsed_term nat 3
           (mk_Request (JNumber 7) "evaluate"
              (JObject [("expression", JString "f ( x y )")]))
           "f ( x y )" eq_refl eq_refl).
Defined.

(** An ["evaluate"] request whose expression is empty or consists of ASCII
    white space makes the handler panic: the parser finds no token and
    asserts the nil it pops to be an expression. *)
Theorem blank_expression_aborts
        (float64 : Set) (fuel : nat) (request : Request float64)
        (expression : string) :
  String.eqb (Method request) "evaluate" = true ->
  expression_param (Params request) = Some expression ->
  all_bytes ascii_space expression = true ->
  serve fuel request = Abort NilNotExpression /\
  forall input, handleConnection fuel (Decoded request :: input) =
                ([], Aborted NilNotExpression).
Proof.
  intros Hm Hp Hblank. apply expression_param_Some in Hp.
  destruct Hp as [fields [Hparams Hindex]].
  assert (E : serve fuel request = Abort NilNotExpression).
  { unfold serve, parseLambdaExpression.
    rewrite Hm, Hparams, Hindex, (Fields_blank expression Hblank). reflexivity. }
  split; [exact E|]. intros input. simpl. rewrite E. reflexivity.
Qed.

Lemma blank_expression_aborts_witness :
  serve 0 (mk_Request (JNumber 7) "evaluate"
             (JObject [("expression", JString "  ")])) =
  Abort (float64 := nat) NilNotExpression.
Proof.
  apply (blank_expression_aborts nat 0
           (mk_Request (JNumber 7) "evaluate"
              (JObject [("expression", JString "  ")]))
           "  " eq_refl eq_refl eq_refl).
Defined.

(** Requests that get a response do not disturb what follows: after them
    the loop goes on with the rest of the input as from a fresh start, and
    their responses come first, in order. *)
Theorem handleConnection_after_answered_requests
        (float64 : Set) (fuel : nat)
        (requests : list (Request float64)) (input : list (decoded float64)) :
  forallb (answered fuel) requests = true ->
  handleConnection fuel (map Decoded requests ++ input) =
  (fst (handleConnection fuel (map Decoded requests))
     ++ fst (handleConnection fuel input),
   snd (handleConnection fuel input)) /\
  length (fst (handleConnection fuel (map Decoded requests))) = length requests.
Proof.
  induction requests as [|request requests IH]; intros H; simpl.
  - destruct (handleConnection fuel input). split; reflexivity.
  - simpl in H. apply andb_prop in H. destruct H as [Hr Hrs].
    unfold answered in Hr. destruct (serve fuel request); try discriminate.
    destruct (IH Hrs) as [IH1 IH2]. rewrite IH1.
    destruct (handleConnection fuel (map Decoded requests)) as [responses e].
    simpl in *. rewrite IH2. split; reflexivity.
Qed.

Lemma handleConnection_after_answered_requests_witness :
  handleConnection 0
    (map Decoded [mk_Request (JNumber 1) "ping" JNull] ++ [DecodeFailed]) =
  ([mk_Response (JNumber 1) (ResultParams JNull)], Returned).
Proof.
  apply (handleConnection_after_answered_requests nat 0
           [mk_Request (JNumber 1) "ping" JNull] [DecodeFailed] eq_refl).
Defined.

(** A session of requests for methods other than ["evaluate"] gets every
    request echoed, in order.  An ["evaluate"] request whose params are no
    object, or hold no string under ["expression"], then ends the
    connection without any response, for itself and for every request
    after it. *)
Theorem malformed_evaluate_request_ends_connection
        (float64 : Set) (fuel : nat)
        (requests : list (Request float64)) (bad : Request float64)
        (input : list (decoded float64)) :
  forallb (fun r => negb (String.eqb (Method r) "evaluate")) requests = true ->
  String.eqb (Method bad) "evaluate" = true ->
  expression_param (Params bad) = None ->
  handleConnection fuel (map Decoded requests) = (map echo requests, Returned) /\
  handleConnection fuel (map Decoded requests ++ Decoded bad :: input) =
  (map echo requests, Returned).
Proof.
  intros Hrs Hm Hp.
  assert (Hbad : serve fuel bad = Return).
  { unfold serve. rewrite Hm. unfold expression_param in Hp.
    destruct (Params bad) as [| | | | |fields]; try reflexivity.
    destruct (index fields "expression") as [[| | |s| |]|];
      try reflexivity; discriminate. }
  induction requests as [|request requests IH]; simpl.
  - rewrite Hbad. split; reflexivity.
  - simpl in Hrs. apply andb_prop in Hrs. destruct Hrs as [Hr Hrs].
    apply negb_true_iff in Hr.
    assert (Hecho : serve fuel request = Respond (echo request))
      by (unfold serve; rewrite Hr; reflexivity).
    rewrite Hecho. destruct (IH Hrs) as [IH1 IH2]. rewrite IH1, IH2.
    split; reflexivity.
Qed.

Lemma malformed_evaluate_request_ends_connection_witness :
  handleConnection 0
    (map Decoded [mk_Request (JNumber 1) "ping" JNull]
       ++ Decoded (mk_Request (JNumber 2) "evaluate" (JObject [("expr", JString "x")]))
       :: [Decoded (mk_Request (JNumber 3) "ping" JNull)]) =
  ([mk_Response (JNumber 1) (ResultParams JNull)], Returned).
Proof.
  apply (malformed_evaluate_request_ends_connection nat 0
           [mk_Request (JNumber 1) "ping" JNull]
           (mk_Request (JNumber 2) "evaluate" (JObject [("expr", JString "x")]))
           [Decoded (mk_Request (JNumber 3) "ping" JNull)]
           eq_refl eq_refl eq_refl).
Defined.

Lemma serve_echoes_id (float64 : Set) (fuel : nat)
      (request : Request float64) (response : Response float64) :
  serve fuel request = Respond response ->
  Response_ID response = Request_ID request.
Proof.
  unfold serve. destruct (String.eqb (Method request) "evaluate").
  - destruct (Params request) as [| | | | |fields]; try discriminate.
    destruct (index fields "expression") as [[| | |s| |]|]; try discriminate.
    destruct (express <- parseLambdaExpression fuel s ;; Evaluate fuel express);
      try discriminate.
    intros H. inversion H; subst. reflexivity.
  - intros H. inversion H; subst. reflexivity.
Qed.

(** Whatever the input, the responses written answer the first requests
    decoded, one each and in their order: the ids of the responses are the
    ids of as many leading requests. *)
Theorem responses_answer_leading_requests
        (float64 : Set) (fuel : nat) (input : list (decoded float64)) :
  map Response_ID (fst (handleConnection fuel input)) =
  map Request_ID
      (firstn (length (fst (handleConnection fuel input))) (decoded_requests input)).
Proof.
  induction input as [|[request|] input IH]; simpl; try reflexivity.
  destruct (serve fuel request) as [response| | |] eqn:E; try reflexivity.
  destruct (handleConnection fuel input) as [responses e]. simpl in *.
  rewrite IH, (serve_echoes_id _ _ _ _ E). reflexivity.
Qed.
